(** * Token-bucket rate limiter ([src/utils/rateLimiter.ts])

    A shallow embedding of the two classes of the module, [RateLimiter]
    and [NoOpRateLimiter], and of the interface [IRateLimiter] they
    implement, followed by the properties of the specification.

    Modelling choices.
    - A JavaScript [number] holding a token count, a weight or a delay is
      an exact rational ([Q]): the arithmetic of the source ([+], [-],
      [*], [/], [Math.min], [>], [>=]) is the field arithmetic and the
      order of [Q].  Rounding, [NaN] and the infinities are outside the
      model.  The properties stated below are those that do not rest on
      the exactness of that arithmetic: they follow from the order of
      the numbers and from the operations being monotone, or they
      concern whole numbers and the constants 100, 10 and 1000, on
      which the rounded operations of the source are exact.
    - [Date.now()] returns a whole number of milliseconds: a [Z].  The
      environment is the list of the values the successive calls of
      [Date.now()] return.  A run that needs one more reading than the
      list holds stops there with its promise still pending, so that a
      finite list shows the limiter at every point where it can be
      observed.
    - [setTimeout(resolve, ms)] suspends the caller: the delay it is
      given is recorded, and what the clock shows afterwards is the next
      reading of the environment.
    - A promise is settled ([Fulfilled] or [Rejected]) or still pending
      ([None]). *)

From Stdlib Require Import QArith Qminmax Qround ZArith List Lia Lqa Bool String.
Import ListNotations.
Open Scope Q_scope.

(** ** Promises and runs *)

Variant JsError : Type :=
  | Error (message : string).

Variant settled (A : Type) : Type :=
  | Fulfilled (value : A)
  | Rejected (reason : JsError).

Arguments Fulfilled {A} value.
Arguments Rejected {A} reason.

(** What a call of [waitForToken] leaves behind. *)
Record run (L : Type) : Type := mkRun {
  promise  : option (settled unit);  (* [None]: not settled yet *)
  limiter  : L;                      (* the fields of [this] *)
  timeouts : list Q;                 (* delays given to [setTimeout], in order *)
  unread   : list Z                  (* readings of the clock not consumed *)
}.

Arguments mkRun {L} promise limiter timeouts unread.
Arguments promise {L} r.
Arguments limiter {L} r.
Arguments timeouts {L} r.
Arguments unread {L} r.

(** [weight: number = 1]: an absent argument takes the default. *)
Definition default_arg (weight : option Q) (dflt : Q) : Q :=
  match weight with
  | Some w => w
  | None => dflt
  end.

(** [a > b] and [a >= b] on numbers. *)
Definition Qgtb (a b : Q) : bool := negb (Qle_bool a b).
Definition Qgeb (a b : Q) : bool := Qle_bool b a.

(** ** [interface IRateLimiter] *)

Class IRateLimiter (L : Type) : Type := {
  waitForToken : list Z -> L -> option Q -> run L
}.

(** ** [class RateLimiter] *)

Module RateLimiter.

Record t : Type := mk {
  tokens     : Q;
  lastRefill : Z;
  capacity   : Q;
  refillRate : Q   (* tokens per second *)
}.

Definition constructor (now : Z) : t :=
  let capacity := 100 in
  let refillRate := 10 in
  {| capacity := capacity;
     refillRate := refillRate;
     tokens := capacity;
     lastRefill := now |}.

Definition refillTokens (now : Z) (this : t) : t :=
  let elapsedSeconds := inject_Z (now - lastRefill this) / 1000 in
  let newTokens := elapsedSeconds * refillRate this in
  if Qgtb newTokens 0 then
    {| tokens := Qmin (capacity this) (tokens this + newTokens);
       lastRefill := now;
       capacity := capacity this;
       refillRate := refillRate this |}
  else this.

(** [this.tokens -= weight] *)
Definition consume (weight : Q) (this : t) : t :=
  {| tokens := tokens this - weight;
     lastRefill := lastRefill this;
     capacity := capacity this;
     refillRate := refillRate this |}.

Fixpoint waitForToken (clock : list Z) (this : t) (weight : option Q)
  : run t :=
  let weight := default_arg weight 1 in
  match clock with
  | [] => mkRun None this [] []
  | now :: clock =>
      let this := refillTokens now this in
      if Qgeb (tokens this) weight then
        mkRun (Some (Fulfilled tt)) (consume weight this) [] clock
      else
        let tokensNeeded := weight - tokens this in
        let waitTimeMs := (tokensNeeded / refillRate this) * 1000 in
        match clock with
        | [] => mkRun None this [waitTimeMs] []
        | now' :: clock =>
            let this := refillTokens now' this in
            let r := waitForToken clock this (Some weight) in
            mkRun (promise r) (limiter r) (waitTimeMs :: timeouts r)
                  (unread r)
        end
  end.

End RateLimiter.

(** ** [class NoOpRateLimiter] *)

Module NoOpRateLimiter.

(** The class declares no field. *)
Variant t : Type := mk.

Definition constructor : t := mk.

Definition waitForToken (clock : list Z) (this : t) (_weight : option Q)
  : run t :=
  let _weight := default_arg _weight 1 in
  mkRun (Some (Fulfilled tt)) this [] clock.

End NoOpRateLimiter.

#[export] Instance RateLimiter_IRateLimiter : IRateLimiter RateLimiter.t :=
  {| waitForToken := RateLimiter.waitForToken |}.

#[export] Instance NoOpRateLimiter_IRateLimiter
  : IRateLimiter NoOpRateLimiter.t :=
  {| waitForToken := NoOpRateLimiter.waitForToken |}.

(** ** A caller

    [calls clock l ws] is a caller that holds a limiter through the
    interface and awaits [l.waitForToken(w)] for each [w] of [ws] in
    turn, the next call being issued when the previous promise is
    fulfilled (no two calls are in flight together). *)
Fixpoint calls {L : Type} `{IRateLimiter L}
  (clock : list Z) (l : L) (ws : list (option Q)) : run L :=
  match ws with
  | [] => mkRun (Some (Fulfilled tt)) l [] clock
  | w :: ws =>
      let r := waitForToken clock l w in
      match promise r with
      | Some (Fulfilled _) =>
          let r' := calls (unread r) (limiter r) ws in
          mkRun (promise r') (limiter r') (timeouts r ++ timeouts r')
                (unread r')
      | _ => r
      end
  end.

Import RateLimiter (tokens, lastRefill, capacity, refillRate,
                    refillTokens, consume).

(** ** Quantities of the source, named

    The properties below speak of them. *)

(** [newTokens] of [refillTokens], as the source computes it. *)
Definition accrual (now : Z) (this : RateLimiter.t) : Q :=
  (inject_Z (now - lastRefill this) / 1000) * refillRate this.

(** The delay the wait path gives to [setTimeout]. *)
Definition waitTimeMs (this : RateLimiter.t) (weight : Q) : Q :=
  ((weight - tokens this) / refillRate this) * 1000.

(** ** Predicates of the specification *)

(** The invariant of the bucket: [0 <= tokens <= capacity]. *)
Definition within_bounds (l : RateLimiter.t) : Prop :=
  0 <= tokens l /\ tokens l <= capacity l.

(** A weight the contract allows: a positive number, or absent. *)
Definition positive_weight (w : option Q) : Prop := 0 < default_arg w 1.

(** The two read-only fields, as the constructor sets them. *)
Definition as_constructed (l : RateLimiter.t) : Prop :=
  capacity l = 100 /\ refillRate l = 10.

(** ** Quantities for sequences of calls and for shifted clocks *)

(** The weight a sequence of calls asks for in all, an absent weight
    counting for the default 1. *)
Definition total_weight (ws : list (option Q)) : Q :=
  fold_right (fun w acc => default_arg w 1 + acc) 0 ws.

(** A whole number is its own floor; a whole weight is a positive whole
    number, as the default weight 1 is. *)
Definition whole_number (x : Q) : Prop := inject_Z (Qfloor x) == x.

Definition whole_weight (w : option Q) : Prop :=
  0 < default_arg w 1 /\ whole_number (default_arg w 1).

(** The bucket with nothing in it. *)
Definition emptied (l : RateLimiter.t) : RateLimiter.t :=
  RateLimiter.mk 0 (lastRefill l) (capacity l) (refillRate l).

(** A limiter, and a run, as they read on a clock set [d] ms ahead. *)
Definition shift (d : Z) (l : RateLimiter.t) : RateLimiter.t :=
  RateLimiter.mk (tokens l) (lastRefill l + d) (capacity l) (refillRate l).

Definition shift_run (d : Z) (r : run RateLimiter.t) : run RateLimiter.t :=
  mkRun (promise r) (shift d (limiter r)) (timeouts r)
        (map (fun n => (n + d)%Z) (unread r)).

(** * Properties *)

(** ** Comparisons *)

Lemma Qgtb_true (a b : Q) : Qgtb a b = true <-> b < a.
Proof.
  unfold Qgtb. rewrite negb_true_iff, <- not_true_iff_false, Qle_bool_iff.
  split; [apply Qnot_le_lt | apply Qlt_not_le].
Qed.

Lemma Qgtb_false (a b : Q) : Qgtb a b = false <-> a <= b.
Proof.
  unfold Qgtb. rewrite negb_false_iff. apply Qle_bool_iff.
Qed.

Lemma Qgeb_true (a b : Q) : Qgeb a b = true <-> b <= a.
Proof. apply Qle_bool_iff. Qed.

Lemma Qgeb_false (a b : Q) : Qgeb a b = false <-> a < b.
Proof.
  unfold Qgeb. rewrite <- not_true_iff_false, Qle_bool_iff.
  split; [apply Qnot_le_lt | apply Qlt_not_le].
Qed.

(** ** The accrual of [refillTokens] *)

Lemma refillTokens_unfold (now : Z) (this : RateLimiter.t) :
  refillTokens now this =
  if Qgtb (accrual now this) 0 then
    RateLimiter.mk (Qmin (capacity this) (tokens this + accrual now this))
                   now (capacity this) (refillRate this)
  else this.
Proof. reflexivity. Qed.

Lemma inject_Z_minus (a b : Z) :
  inject_Z (a - b) == inject_Z a - inject_Z b.
Proof.
  unfold Zminus. rewrite inject_Z_plus, inject_Z_opp. reflexivity.
Qed.

(** Division by the constant 1000 as a multiplication, for [lra], [nra]. *)
Ltac q1000 := unfold Qdiv in *; change (/ 1000) with (1 # 1000) in *.

Lemma accrual_sign (now : Z) (this : RateLimiter.t) :
  0 < refillRate this ->
  (0 < accrual now this <-> (lastRefill this < now)%Z).
Proof.
  intros Hr. unfold accrual.
  rewrite Zlt_Qlt, inject_Z_minus.
  set (a := inject_Z now). set (b := inject_Z (lastRefill this)).
  set (r := refillRate this) in *.
  q1000. split; intros H.
  - destruct (Qlt_le_dec b a) as [L | L]; [exact L | exfalso; nra].
  - nra.
Qed.

Lemma accrual_backward (now : Z) (this : RateLimiter.t) :
  0 <= refillRate this -> (now <= lastRefill this)%Z ->
  accrual now this <= 0.
Proof.
  intros Hr Hb. unfold accrual.
  rewrite Zle_Qle in Hb. rewrite inject_Z_minus.
  set (a := inject_Z now) in *. set (b := inject_Z (lastRefill this)) in *.
  set (r := refillRate this) in *.
  q1000. nra.
Qed.

(** Without a positive accrual [refillTokens] is the identity; this is
    the case when the clock has not moved since [lastRefill]. *)
Lemma refillTokens_no_accrual (now : Z) (this : RateLimiter.t) :
  accrual now this <= 0 -> refillTokens now this = this.
Proof.
  intros H. rewrite refillTokens_unfold.
  apply Qgtb_false in H. rewrite H. reflexivity.
Qed.

Lemma refillTokens_same_instant (now : Z) (this : RateLimiter.t) :
  lastRefill this = now -> refillTokens now this = this.
Proof.
  intros <-. apply refillTokens_no_accrual. unfold accrual.
  rewrite Z.sub_diag. q1000. change (inject_Z 0) with 0. lra.
Qed.

(** [refillTokens] keeps the two read-only fields. *)
Lemma refillTokens_capacity (now : Z) (this : RateLimiter.t) :
  capacity (refillTokens now this) = capacity this.
Proof. rewrite refillTokens_unfold. destruct (Qgtb _ _); reflexivity. Qed.

Lemma refillTokens_refillRate (now : Z) (this : RateLimiter.t) :
  refillRate (refillTokens now this) = refillRate this.
Proof. rewrite refillTokens_unfold. destruct (Qgtb _ _); reflexivity. Qed.

(** [refillTokens] never lowers the balance of a bucket within its
    capacity, and never raises it above the capacity. *)
Lemma refillTokens_tokens_le_capacity (now : Z) (this : RateLimiter.t) :
  tokens this <= capacity this ->
  tokens (refillTokens now this) <= capacity this.
Proof.
  intros H. rewrite refillTokens_unfold.
  destruct (Qgtb _ _); cbn; [apply Q.le_min_l | exact H].
Qed.

Lemma refillTokens_tokens_ge (now : Z) (this : RateLimiter.t) :
  tokens this <= capacity this ->
  tokens this <= tokens (refillTokens now this).
Proof.
  intros H. rewrite refillTokens_unfold.
  destruct (Qgtb _ _) eqn:E; cbn; [| lra].
  apply Qgtb_true in E. apply Q.min_glb; lra.
Qed.

Lemma refillTokens_within_bounds (now : Z) (this : RateLimiter.t) :
  within_bounds this -> within_bounds (refillTokens now this).
Proof.
  intros [H0 H1]. split.
  - pose proof (refillTokens_tokens_ge now this H1). lra.
  - rewrite refillTokens_capacity.
    apply refillTokens_tokens_le_capacity, H1.
Qed.

(** ** One attempt of [waitForToken] *)

Lemma waitForToken_no_reading (this : RateLimiter.t) (w : option Q) :
  RateLimiter.waitForToken [] this w = mkRun None this [] [].
Proof. destruct w; reflexivity. Qed.

Lemma waitForToken_consume
  (now : Z) (clock : list Z) (this : RateLimiter.t) (w : option Q) :
  Qgeb (tokens (refillTokens now this)) (default_arg w 1) = true ->
  RateLimiter.waitForToken (now :: clock) this w =
  mkRun (Some (Fulfilled tt))
        (consume (default_arg w 1) (refillTokens now this)) [] clock.
Proof. intros H. cbn [RateLimiter.waitForToken]. rewrite H. reflexivity. Qed.

Lemma waitForToken_suspend
  (now : Z) (this : RateLimiter.t) (w : option Q) :
  Qgeb (tokens (refillTokens now this)) (default_arg w 1) = false ->
  RateLimiter.waitForToken [now] this w =
  mkRun None (refillTokens now this)
        [waitTimeMs (refillTokens now this) (default_arg w 1)] [].
Proof. intros H. cbn [RateLimiter.waitForToken]. rewrite H. reflexivity. Qed.

Lemma waitForToken_retry
  (now now' : Z) (clock : list Z) (this : RateLimiter.t) (w : option Q) :
  Qgeb (tokens (refillTokens now this)) (default_arg w 1) = false ->
  RateLimiter.waitForToken (now :: now' :: clock) this w =
  let this1 := refillTokens now this in
  let r := RateLimiter.waitForToken clock (refillTokens now' this1)
                        (Some (default_arg w 1)) in
  mkRun (promise r) (limiter r)
        (waitTimeMs this1 (default_arg w 1) :: timeouts r) (unread r).
Proof. intros H. cbn [RateLimiter.waitForToken]. rewrite H. reflexivity. Qed.

(** Induction on the clock that follows the recursion of [waitForToken]:
    an attempt that suspends reads the clock twice. *)
Lemma clock_ind2 (P : list Z -> Prop) :
  P [] ->
  (forall now, P [now]) ->
  (forall now now' clock, P clock -> P (now :: now' :: clock)) ->
  forall clock, P clock.
Proof.
  intros H0 H1 H2 clock.
  enough (H : P clock /\ forall now, P (now :: clock)) by apply H.
  induction clock as [| a clock [IH IH']]; split; auto.
Qed.

(** ** Properties kept by every run *)

Section Preservation.

Variable I : RateLimiter.t -> Prop.
Variable allowed : Q -> Prop.

Hypothesis I_refillTokens :
  forall now this, I this -> I (refillTokens now this).
Hypothesis I_consume :
  forall weight this,
    allowed weight -> I this -> weight <= tokens this ->
    I (consume weight this).

Lemma waitForToken_preserves (clock : list Z) :
  forall (this : RateLimiter.t) (w : option Q),
    allowed (default_arg w 1) -> I this ->
    I (limiter (RateLimiter.waitForToken clock this w)).
Proof.
  induction clock as [| now | now now' clock IH] using clock_ind2;
    intros this w Hw HI.
  - rewrite waitForToken_no_reading. exact HI.
  - destruct (Qgeb (tokens (refillTokens now this)) (default_arg w 1))
      eqn:E.
    + rewrite waitForToken_consume by exact E. cbn [limiter].
      apply I_consume; auto. apply Qgeb_true, E.
    + rewrite waitForToken_suspend by exact E. cbn [limiter]. auto.
  - destruct (Qgeb (tokens (refillTokens now this)) (default_arg w 1))
      eqn:E.
    + rewrite waitForToken_consume by exact E. cbn [limiter].
      apply I_consume; auto. apply Qgeb_true, E.
    + rewrite waitForToken_retry by exact E. cbn [limiter].
      apply IH; auto.
Qed.

Lemma calls_preserves (ws : list (option Q)) :
  forall (clock : list Z) (this : RateLimiter.t),
    Forall (fun w => allowed (default_arg w 1)) ws -> I this ->
    I (limiter (calls clock this ws)).
Proof.
  induction ws as [| w ws IH]; intros clock this Hws HI; [exact HI |].
  inversion Hws as [| ? ? Hw Hws']; subst.
  pose proof (waitForToken_preserves clock this w Hw HI) as H1.
  cbn [calls waitForToken RateLimiter_IRateLimiter].
  destruct (promise (RateLimiter.waitForToken clock this w)) as [[[] | e] |];
    cbn [limiter]; auto.
Qed.

End Preservation.

(** The promise of [waitForToken] is pending or fulfilled with no value:
    no path of the method settles it with an error. *)
Lemma waitForToken_pending_or_fulfilled (clock : list Z) :
  forall (this : RateLimiter.t) (w : option Q),
    promise (RateLimiter.waitForToken clock this w) = None \/
    promise (RateLimiter.waitForToken clock this w) = Some (Fulfilled tt).
Proof.
  induction clock as [| now | now now' clock IH] using clock_ind2;
    intros this w.
  - rewrite waitForToken_no_reading. now left.
  - destruct (Qgeb (tokens (refillTokens now this)) (default_arg w 1)) eqn:E.
    + rewrite waitForToken_consume by exact E. now right.
    + rewrite waitForToken_suspend by exact E. now left.
  - destruct (Qgeb (tokens (refillTokens now this)) (default_arg w 1)) eqn:E.
    + rewrite waitForToken_consume by exact E. now right.
    + rewrite waitForToken_retry by exact E. cbn [promise]. apply IH.
Qed.

Lemma as_constructed_refillTokens (now : Z) (this : RateLimiter.t) :
  as_constructed this -> as_constructed (refillTokens now this).
Proof.
  unfold as_constructed.
  rewrite refillTokens_capacity, refillTokens_refillRate. auto.
Qed.

Lemma within_bounds_consume (weight : Q) (this : RateLimiter.t) :
  0 < weight -> within_bounds this -> weight <= tokens this ->
  within_bounds (consume weight this).
Proof.
  unfold within_bounds. cbn. intros Hw [H0 H1] Hle. split; lra.
Qed.

(** ** The claims *)

(** C6. A limiter just constructed has [capacity = 100],
    [refillRate = 10], [tokens = capacity] and [lastRefill] equal to the
    time of construction.  The constructor takes nothing but that time,
    and no sequence of calls changes [capacity] or [refillRate]. *)
Theorem C6_fresh_limiter (now : Z) :
  capacity (RateLimiter.constructor now) = 100 /\
  refillRate (RateLimiter.constructor now) = 10 /\
  tokens (RateLimiter.constructor now)
    = capacity (RateLimiter.constructor now) /\
  lastRefill (RateLimiter.constructor now) = now /\
  forall (clock : list Z) (ws : list (option Q)),
    capacity (limiter (calls clock (RateLimiter.constructor now) ws)) = 100 /\
    refillRate (limiter (calls clock (RateLimiter.constructor now) ws)) = 10.
Proof.
  repeat split; try reflexivity;
    apply (calls_preserves as_constructed (fun _ => True));
    try (intros; apply as_constructed_refillTokens; assumption);
    try (intros ? ? _ H _; exact H);
    try (apply Forall_forall; intros; exact Logic.I);
    split; reflexivity.
Qed.


(** C2. Whatever the clock shows, a limiter that has only received
    calls of [waitForToken] with positive weights, one after the other,
    has [0 <= tokens <= capacity] at every point where it can be
    observed (the clock is any finite list of readings, so the run may
    stop after any of them). *)
Theorem C2_tokens_within_bounds
  (T : Z) (clock : list Z) (ws : list (option Q))
  (Hpos : Forall positive_weight ws) :
  within_bounds (limiter (calls clock (RateLimiter.constructor T) ws)).
Proof.
  apply (calls_preserves within_bounds (fun weight => 0 < weight)).
  - intros. apply refillTokens_within_bounds. assumption.
  - intros. apply within_bounds_consume; assumption.
  - exact Hpos.
  - split; cbn; lra.
Qed.

Lemma C2_tokens_within_bounds_witness :
  Forall positive_weight [Some 100; None; Some 10] /\
  within_bounds
    (limiter (calls [0; 0; 0; 1100; 1100]%Z (RateLimiter.constructor 0)
                    [Some 100; None; Some 10])).
Proof.
  assert (H : Forall positive_weight [Some 100; None; Some 10]).
  { repeat constructor. }
  split; [exact H | apply (C2_tokens_within_bounds 0 _ _ H)].
Defined.

(** C4. When the bucket holds at least [weight] after the refill step,
    [waitForToken(weight)] deducts exactly [weight] and its promise is
    fulfilled at once, no timer being set.  In particular, on a fresh
    limiter [waitForToken(1)] followed by [waitForToken(50)] both
    complete without waiting, whatever the clock shows; when no time
    has passed, 49 tokens are left. *)
Theorem C4_fast_path
  (now : Z) (clock : list Z) (this : RateLimiter.t) (weight : Q)
  (Henough : weight <= tokens (refillTokens now this)) :
  RateLimiter.waitForToken (now :: clock) this (Some weight)
    = mkRun (Some (Fulfilled tt)) (consume weight (refillTokens now this))
            [] clock
  /\ tokens (consume weight (refillTokens now this))
     = tokens (refillTokens now this) - weight
  /\ (forall (T n1 n2 : Z) (rest : list Z),
        promise (calls (n1 :: n2 :: rest) (RateLimiter.constructor T)
                       [Some 1; Some 50]) = Some (Fulfilled tt)
        /\ timeouts (calls (n1 :: n2 :: rest) (RateLimiter.constructor T)
                           [Some 1; Some 50]) = []
        /\ unread (calls (n1 :: n2 :: rest) (RateLimiter.constructor T)
                         [Some 1; Some 50]) = rest)
  /\ (forall T : Z,
        tokens (limiter (calls [T; T] (RateLimiter.constructor T)
                               [Some 1; Some 50])) == 49).
Proof.
  split; [| split; [reflexivity | split]].
  - apply waitForToken_consume, Qgeb_true, Henough.
  - intros T n1 n2 rest.
    set (l0 := RateLimiter.constructor T).
    assert (B0 : tokens l0 <= capacity l0) by (cbn; lra).
    pose proof (refillTokens_tokens_ge n1 l0 B0) as G1.
    pose proof (refillTokens_tokens_le_capacity n1 l0 B0) as L1.
    set (l1 := refillTokens n1 l0) in *.
    assert (E1 : Qgeb (tokens l1) 1 = true).
    { apply Qgeb_true. change (tokens l0) with 100 in G1. lra. }
    set (l2 := consume 1 l1).
    assert (B2 : tokens l2 <= capacity l2).
    { subst l2. cbn. subst l1. rewrite refillTokens_capacity. lra. }
    pose proof (refillTokens_tokens_ge n2 l2 B2) as G2.
    assert (E2 : Qgeb (tokens (refillTokens n2 l2)) 50 = true).
    { apply Qgeb_true. subst l2. cbn in G2.
      change (tokens l0) with 100 in G1. lra. }
    cbn [calls waitForToken RateLimiter_IRateLimiter].
    rewrite (waitForToken_consume n1 (n2 :: rest) l0 (Some 1) E1).
    cbn [calls waitForToken RateLimiter_IRateLimiter
         promise limiter unread timeouts].
    change (consume (default_arg (Some 1) 1) (refillTokens n1 l0)) with l2.
    rewrite (waitForToken_consume n2 rest l2 (Some 50) E2).
    cbn. auto.
  - intros T.
    cbn [calls waitForToken RateLimiter_IRateLimiter
         RateLimiter.waitForToken default_arg].
    rewrite (refillTokens_same_instant T (RateLimiter.constructor T))
      by reflexivity.
    cbn [Qgeb Qle_bool tokens RateLimiter.constructor Qnum Qden Z.mul
         Pos.mul Z.leb Z.compare Pos.compare Pos.compare_cont
         promise limiter unread timeouts].
    rewrite waitForToken_consume;
      rewrite (refillTokens_same_instant T) by reflexivity;
      reflexivity.
Qed.

Lemma C4_fast_path_witness :
  1 <= tokens (refillTokens 0 (RateLimiter.constructor 0)) /\
  RateLimiter.waitForToken [0%Z] (RateLimiter.constructor 0) (Some 1)
    = mkRun (Some (Fulfilled tt))
            (consume 1 (refillTokens 0 (RateLimiter.constructor 0))) [] [].
Proof.
  assert (H : 1 <= tokens (refillTokens 0 (RateLimiter.constructor 0))).
  { apply Qle_bool_imp_le. reflexivity. }
  split; [exact H |].
  apply (C4_fast_path 0 [] (RateLimiter.constructor 0) 1 H).
Defined.

(** C5. When the bucket holds less than [weight] after the refill step,
    [waitForToken(weight)] consumes nothing and gives [setTimeout] the
    delay [((weight - tokens) / refillRate) * 1000]; on waking it
    refills and runs [waitForToken(weight)] again, which refills and
    checks anew.  A timer that fires early therefore leads to a second
    suspension and not to a consumption.  On a limiter drained by
    [waitForToken(100)], [waitForToken(10)] at the same instant waits
    1000 ms and then completes. *)
Theorem C5_wait_path
  (now : Z) (clock : list Z) (this : RateLimiter.t) (weight : Q)
  (Hshort : tokens (refillTokens now this) < weight) :
  RateLimiter.waitForToken (now :: clock) this (Some weight) =
    match clock with
    | [] =>
        mkRun None (refillTokens now this)
              [((weight - tokens (refillTokens now this))
                / refillRate (refillTokens now this)) * 1000] []
    | now' :: clock' =>
        let r := RateLimiter.waitForToken
                   clock' (refillTokens now' (refillTokens now this))
                   (Some weight) in
        mkRun (promise r) (limiter r)
              (((weight - tokens (refillTokens now this))
                / refillRate (refillTokens now this)) * 1000 :: timeouts r)
              (unread r)
    end
  /\ (forall T : Z,
        tokens (limiter (RateLimiter.waitForToken
                           [T] (RateLimiter.constructor T) (Some 100))) == 0
        /\ Forall2 Qeq
             (timeouts
                (RateLimiter.waitForToken
                   [T; T + 1000; T + 1000]%Z
                   (limiter (RateLimiter.waitForToken
                               [T] (RateLimiter.constructor T) (Some 100)))
                   (Some 10)))
             [1000]
        /\ promise
             (RateLimiter.waitForToken
                [T; T + 1000; T + 1000]%Z
                (limiter (RateLimiter.waitForToken
                            [T] (RateLimiter.constructor T) (Some 100)))
                (Some 10))
           = Some (Fulfilled tt))
  /\ Forall2 Qeq
       (timeouts
          (RateLimiter.waitForToken
             [0; 500; 500; 1000; 1000]%Z
             (limiter (RateLimiter.waitForToken
                         [0%Z] (RateLimiter.constructor 0) (Some 100)))
             (Some 10)))
       [1000; 500].
Proof.
  split; [| split].
  - apply Qgeb_false in Hshort. destruct clock as [| now' clock'].
    + apply (waitForToken_suspend now this (Some weight) Hshort).
    + apply (waitForToken_retry now now' clock' this (Some weight) Hshort).
  - intros T.
    assert (D : RateLimiter.waitForToken
                  [T] (RateLimiter.constructor T) (Some 100)
                = mkRun (Some (Fulfilled tt))
                        (consume 100 (RateLimiter.constructor T)) [] []).
    { rewrite waitForToken_consume;
        rewrite (refillTokens_same_instant T) by reflexivity; reflexivity. }
    rewrite D. cbn [limiter].
    set (drained := consume 100 (RateLimiter.constructor T)).
    assert (R0 : refillTokens T drained = drained)
      by (apply refillTokens_same_instant; reflexivity).
    assert (R1 : refillTokens (T + 1000) drained
                 = RateLimiter.mk (Qmin 100 ((100 - 100) + (1000 / 1000) * 10))
                                  (T + 1000) 100 10).
    { unfold refillTokens. cbn [lastRefill drained consume
                                 RateLimiter.constructor].
      replace (T + 1000 - T)%Z with 1000%Z by lia. reflexivity. }
    rewrite waitForToken_retry by (rewrite R0; reflexivity).
    cbv zeta. rewrite R0, R1.
    rewrite waitForToken_consume;
      rewrite refillTokens_same_instant by reflexivity;
      [| reflexivity].
    cbn [timeouts promise]. split; [reflexivity |]. split; [| reflexivity].
    constructor; [reflexivity | constructor].
  - vm_compute. repeat constructor.
Qed.

Lemma C5_wait_path_witness :
  tokens (refillTokens 0 (consume 100 (RateLimiter.constructor 0))) < 10 /\
  RateLimiter.waitForToken [0%Z] (consume 100 (RateLimiter.constructor 0))
                           (Some 10)
    = mkRun None (refillTokens 0 (consume 100 (RateLimiter.constructor 0)))
            [((10 - tokens (refillTokens
                              0 (consume 100 (RateLimiter.constructor 0))))
              / refillRate (refillTokens
                              0 (consume 100 (RateLimiter.constructor 0))))
             * 1000] [].
Proof.
  assert (H : tokens (refillTokens 0 (consume 100 (RateLimiter.constructor 0)))
              < 10) by reflexivity.
  split; [exact H |].
  apply (C5_wait_path 0 [] (consume 100 (RateLimiter.constructor 0)) 10 H).
Defined.

(** C9. When the clock reads a time at or before [lastRefill] (the
    refill rate not being negative), the refill step changes neither
    [tokens] nor [lastRefill], and [waitForToken] goes on as usual on
    the bucket as it was: it consumes when the balance suffices, it
    suspends for the usual delay otherwise, and its promise is never
    rejected. *)
Theorem C9_clock_backward
  (now : Z) (clock : list Z) (this : RateLimiter.t) (w : option Q)
  (Hrate : 0 <= refillRate this)
  (Hback : (now <= lastRefill this)%Z) :
  refillTokens now this = this
  /\ tokens (refillTokens now this) = tokens this
  /\ lastRefill (refillTokens now this) = lastRefill this
  /\ RateLimiter.waitForToken (now :: clock) this w =
       (if Qgeb (tokens this) (default_arg w 1) then
          mkRun (Some (Fulfilled tt)) (consume (default_arg w 1) this)
                [] clock
        else
          match clock with
          | [] => mkRun None this [waitTimeMs this (default_arg w 1)] []
          | now' :: clock' =>
              let r := RateLimiter.waitForToken
                         clock' (refillTokens now' this)
                         (Some (default_arg w 1)) in
              mkRun (promise r) (limiter r)
                    (waitTimeMs this (default_arg w 1) :: timeouts r)
                    (unread r)
          end)
  /\ (promise (RateLimiter.waitForToken (now :: clock) this w) = None \/
      promise (RateLimiter.waitForToken (now :: clock) this w)
        = Some (Fulfilled tt)).
Proof.
  assert (R : refillTokens now this = this).
  { apply refillTokens_no_accrual, accrual_backward; assumption. }
  split; [exact R |]. rewrite R.
  split; [reflexivity |]. split; [reflexivity |].
  split; [| apply waitForToken_pending_or_fulfilled].
  destruct (Qgeb (tokens this) (default_arg w 1)) eqn:E.
  - rewrite waitForToken_consume by (rewrite R; exact E).
    rewrite R. reflexivity.
  - destruct clock as [| now' clock'].
    + rewrite waitForToken_suspend by (rewrite R; exact E).
      rewrite R. reflexivity.
    + rewrite waitForToken_retry by (rewrite R; exact E).
      rewrite R. reflexivity.
Qed.

Lemma C9_clock_backward_witness :
  0 <= refillRate (RateLimiter.constructor 5000) /\
  (4000 <= lastRefill (RateLimiter.constructor 5000))%Z /\
  refillTokens 4000 (RateLimiter.constructor 5000)
    = RateLimiter.constructor 5000.
Proof.
  assert (Hr : 0 <= refillRate (RateLimiter.constructor 5000))
    by (apply Qle_bool_imp_le; reflexivity).
  assert (Hb : (4000 <= lastRefill (RateLimiter.constructor 5000))%Z)
    by (cbn; lia).
  split; [exact Hr |]. split; [exact Hb |].
  apply (C9_clock_backward 4000 [] (RateLimiter.constructor 5000) None Hr Hb).
Defined.

(** C10. With a weight that is zero or negative, [waitForToken] on a
    limiter whose balance is not negative (its capacity not being
    negative either, as for every limiter) takes the fast path: its
    promise is fulfilled at once, no timer is set, and [tokens] becomes
    [tokens - weight], that is the refilled balance raised by [-weight].
    A negative weight thus raises the balance, and past the capacity for
    some inputs: [waitForToken(-50)] on a fresh limiter leaves 150
    tokens in a bucket of capacity 100.  The balance may already be
    above the capacity when the call is made. *)
Theorem C10_nonpositive_weight
  (now : Z) (clock : list Z) (this : RateLimiter.t) (weight : Q)
  (Htokens : 0 <= tokens this)
  (Hcapacity : 0 <= capacity this)
  (Hweight : weight <= 0) :
  RateLimiter.waitForToken (now :: clock) this (Some weight)
    = mkRun (Some (Fulfilled tt)) (consume weight (refillTokens now this))
            [] clock
  /\ tokens (consume weight (refillTokens now this))
     = tokens (refillTokens now this) - weight
  /\ tokens (consume weight (refillTokens now this))
     == tokens (refillTokens now this) + (- weight)
  /\ tokens (refillTokens now this)
     <= tokens (consume weight (refillTokens now this))
  /\ (forall T n : Z,
        tokens (limiter (RateLimiter.waitForToken
                           [n] (RateLimiter.constructor T) (Some (-50))))
        == 150
        /\ capacity (limiter (RateLimiter.waitForToken
                                [n] (RateLimiter.constructor T) (Some (-50))))
           < tokens (limiter (RateLimiter.waitForToken
                                [n] (RateLimiter.constructor T) (Some (-50))))).
Proof.
  assert (B0 : 0 <= tokens (refillTokens now this)).
  { rewrite refillTokens_unfold.
    destruct (Qgtb (accrual now this) 0) eqn:E; cbn [tokens];
      [| exact Htokens].
    apply Qgtb_true in E. apply Q.min_glb; lra. }
  split; [| split; [reflexivity | split; [| split]]].
  - apply waitForToken_consume, Qgeb_true. cbn [default_arg]. lra.
  - cbn [tokens consume]. lra.
  - cbn [tokens consume]. lra.
  - intros T n.
    set (l0 := RateLimiter.constructor T).
    assert (W0 : within_bounds l0) by (split; cbn; lra).
    pose proof (refillTokens_within_bounds n l0 W0) as [G0 G1].
    pose proof (refillTokens_tokens_ge n l0 (proj2 W0)) as G2.
    rewrite refillTokens_capacity in G1.
    change (capacity l0) with 100 in G1. change (tokens l0) with 100 in G2.
    rewrite waitForToken_consume
      by (apply Qgeb_true; cbn [default_arg]; lra).
    cbn [limiter default_arg consume tokens capacity].
    rewrite refillTokens_capacity. change (capacity l0) with 100.
    split; lra.
Qed.

Lemma C10_nonpositive_weight_witness :
  0 <= tokens (limiter (RateLimiter.waitForToken
                          [0%Z] (RateLimiter.constructor 0) (Some (-50)))) /\
  0 <= capacity (limiter (RateLimiter.waitForToken
                            [0%Z] (RateLimiter.constructor 0) (Some (-50)))) /\
  -50 <= 0 /\
  RateLimiter.waitForToken
    [7%Z]
    (limiter (RateLimiter.waitForToken
                [0%Z] (RateLimiter.constructor 0) (Some (-50))))
    (Some (-50))
  = mkRun (Some (Fulfilled tt))
          (consume (-50)
             (refillTokens 7
                (limiter (RateLimiter.waitForToken
                            [0%Z] (RateLimiter.constructor 0) (Some (-50))))))
          [] [].
Proof.
  assert (Ht : 0 <= tokens (limiter (RateLimiter.waitForToken
                                       [0%Z] (RateLimiter.constructor 0)
                                       (Some (-50)))))
    by (apply Qle_bool_imp_le; reflexivity).
  assert (Hc : 0 <= capacity (limiter (RateLimiter.waitForToken
                                         [0%Z] (RateLimiter.constructor 0)
                                         (Some (-50)))))
    by (apply Qle_bool_imp_le; reflexivity).
  assert (Hw : -50 <= 0) by (apply Qle_bool_imp_le; reflexivity).
  split; [exact Ht |]. split; [exact Hc |]. split; [exact Hw |].
  apply (C10_nonpositive_weight
           7 []
           (limiter (RateLimiter.waitForToken
                       [0%Z] (RateLimiter.constructor 0) (Some (-50))))
           (-50) Ht Hc Hw).
Defined.

(** C7. For the no-op variant, [waitForToken(weight)] with any weight,
    absent, zero or however large, has its promise fulfilled at once:
    no timer is set, the clock is not read, no error is raised and the
    object is left as it was.  Hence any sequence of calls leaves
    everything as it found it, and a later call behaves as if the
    earlier ones had not been made. *)
Theorem C7_noop_immediate
  (clock : list Z) (this : NoOpRateLimiter.t)
  (w w' : option Q) (ws : list (option Q)) :
  NoOpRateLimiter.waitForToken clock this w
    = mkRun (Some (Fulfilled tt)) this [] clock
  /\ calls clock this ws = mkRun (Some (Fulfilled tt)) this [] clock
  /\ NoOpRateLimiter.waitForToken
       (unread (calls clock this ws)) (limiter (calls clock this ws)) w'
     = NoOpRateLimiter.waitForToken clock this w'.
Proof.
  assert (C : calls clock this ws = mkRun (Some (Fulfilled tt)) this [] clock).
  { induction ws as [| w0 ws IH]; [reflexivity |].
    cbn [calls waitForToken NoOpRateLimiter_IRateLimiter
         NoOpRateLimiter.waitForToken promise limiter unread timeouts].
    rewrite IH. reflexivity. }
  split; [reflexivity |]. split; [exact C |]. rewrite C. reflexivity.
Qed.

(** C8. [waitForToken] never rejects: on every input and for both
    variants its promise is either still pending or fulfilled with no
    value, never settled with an error; the no-op variant's is always
    fulfilled. *)
Theorem C8_never_rejects
  (clock : list Z) (w : option Q)
  (l : RateLimiter.t) (n : NoOpRateLimiter.t) :
  (promise (RateLimiter.waitForToken clock l w) = None \/
   promise (RateLimiter.waitForToken clock l w) = Some (Fulfilled tt))
  /\ promise (NoOpRateLimiter.waitForToken clock n w) = Some (Fulfilled tt).
Proof.
  split; [apply waitForToken_pending_or_fulfilled | reflexivity].
Qed.

(** ** Weights and the capacity *)

(** A bucket within its capacity never holds a weight above the
    capacity, whatever the clock shows: every attempt suspends, and the
    promise is still pending after any number of readings. *)
Lemma waitForToken_over_capacity_pending (weight : Q) (clock : list Z) :
  forall this : RateLimiter.t,
    tokens this <= capacity this -> capacity this < weight ->
    promise (RateLimiter.waitForToken clock this (Some weight)) = None.
Proof.
  induction clock as [| now | now now' clock IH] using clock_ind2;
    intros this Hle Hlt.
  - reflexivity.
  - rewrite waitForToken_suspend; [reflexivity |].
    apply Qgeb_false. cbn [default_arg].
    pose proof (refillTokens_tokens_le_capacity now this Hle). lra.
  - pose proof (refillTokens_tokens_le_capacity now this Hle) as H1.
    rewrite waitForToken_retry
      by (apply Qgeb_false; cbn [default_arg]; lra).
    cbn [promise default_arg]. apply IH.
    + rewrite refillTokens_capacity.
      apply refillTokens_tokens_le_capacity.
      rewrite refillTokens_capacity. exact H1.
    + rewrite !refillTokens_capacity. exact Hlt.
Qed.

(** With an ideal timer, [waitForToken(150)] on a fresh limiter waits
    5000 ms, finds the bucket full at 100 tokens, and waits 5000 ms
    again, and so on. *)
Example large_weight_suspends_again :
  Forall2 Qeq
    (timeouts (RateLimiter.waitForToken
                 [0; 5000; 5000; 10000; 10000]%Z
                 (RateLimiter.constructor 0) (Some 150)))
    [5000; 5000; 5000]
  /\ promise (RateLimiter.waitForToken
                [0; 5000; 5000; 10000; 10000]%Z
                (RateLimiter.constructor 0) (Some 150)) = None
  /\ tokens (limiter (RateLimiter.waitForToken
                        [0; 5000; 5000; 10000; 10000]%Z
                        (RateLimiter.constructor 0) (Some 150))) == 100.
Proof. vm_compute. repeat constructor. Qed.

(** C1.  The code does not do what the claim says for a weight above
    the capacity.  [waitForToken(150)] on a fresh limiter of capacity
    100 completes for no behaviour of the clock: the refill clamps the
    balance to the capacity, so every attempt finds 100 tokens, fewer
    than 150, and sets a timer of 5000 ms again; the promise is pending
    after any number of readings, with one timer for every two of
    them. *)
Theorem C1_large_weight_stays_pending (T : Z) (clock : list Z) :
  promise (RateLimiter.waitForToken
             clock (RateLimiter.constructor T) (Some 150)) = None
  /\ Forall (fun ms => ms == 5000)
            (timeouts (RateLimiter.waitForToken
                         clock (RateLimiter.constructor T) (Some 150)))
  /\ List.length (timeouts (RateLimiter.waitForToken
                              clock (RateLimiter.constructor T) (Some 150)))
     = Nat.div2 (S (List.length clock))
  /\ tokens (limiter (RateLimiter.waitForToken
                        clock (RateLimiter.constructor T) (Some 150)))
     == 100.
Proof.
  set (full := fun l : RateLimiter.t =>
                 tokens l == 100 /\ capacity l = 100 /\ refillRate l = 10).
  assert (F0 : full (RateLimiter.constructor T))
    by (repeat split; reflexivity).
  assert (Frefill : forall now l, full l -> full (refillTokens now l)).
  { intros now l (Ht & Hc & Hr). unfold full.
    rewrite refillTokens_capacity, refillTokens_refillRate.
    split; [| auto]. rewrite refillTokens_unfold.
    destruct (Qgtb (accrual now l) 0) eqn:E; cbn [tokens]; [| exact Ht].
    apply Qgtb_true in E. rewrite Hc, Q.min_l by lra. reflexivity. }
  assert (Fshort : forall l, full l -> Qgeb (tokens l) 150 = false).
  { intros l (Ht & _). apply Qgeb_false. lra. }
  assert (Fdelay : forall l, full l -> waitTimeMs l 150 == 5000).
  { intros l (Ht & _ & Hr). unfold waitTimeMs. rewrite Hr, Ht. reflexivity. }
  generalize (RateLimiter.constructor T) F0. clear F0.
  induction clock as [| now | now now' clock IH] using clock_ind2;
    intros l Fl.
  - cbn. repeat split; [constructor | apply Fl].
  - pose proof (Frefill now l Fl) as F1.
    rewrite waitForToken_suspend by (apply Fshort, F1).
    cbn [promise timeouts limiter default_arg List.length Nat.div2].
    repeat split; [| apply F1].
    constructor; [apply Fdelay, F1 | constructor].
  - pose proof (Frefill now l Fl) as F1.
    pose proof (Frefill now' _ F1) as F2.
    rewrite waitForToken_retry by (apply Fshort, F1). cbv zeta.
    cbn [promise timeouts limiter default_arg List.length Nat.div2].
    destruct (IH _ F2) as (P & D & L & K).
    split; [exact P |]. split; [| split; [f_equal; exact L | exact K]].
    constructor; [apply Fdelay, F1 | exact D].
Qed.

(** * Further properties of the code *)

(** ** The refill step on its own *)

Lemma refillTokens_again (now : Z) (this : RateLimiter.t) :
  refillTokens now (refillTokens now this) = refillTokens now this.
Proof.
  rewrite (refillTokens_unfold now this).
  destruct (Qgtb (accrual now this) 0) eqn:E.
  - apply refillTokens_same_instant. reflexivity.
  - apply refillTokens_no_accrual, Qgtb_false, E.
Qed.

(** Refilling twice on the same reading of the clock credits the elapsed
    time once: the second refill changes nothing, whatever the bucket
    and the reading.  Hence a call behaves the same whether or not the
    bucket was refilled just before it on the same reading, as it is on
    a retry (lines 51 and 39). *)
Theorem refillTokens_idempotent
  (now : Z) (clock : list Z) (this : RateLimiter.t) (w : option Q) :
  refillTokens now (refillTokens now this) = refillTokens now this
  /\ RateLimiter.waitForToken (now :: clock) (refillTokens now this) w
     = RateLimiter.waitForToken (now :: clock) this w.
Proof.
  split; [apply refillTokens_again |].
  cbn [RateLimiter.waitForToken].
  rewrite refillTokens_again. reflexivity.
Qed.

Lemma accrual_monotone (n1 n2 : Z) (this : RateLimiter.t) :
  0 <= refillRate this -> (n1 <= n2)%Z ->
  accrual n1 this <= accrual n2 this.
Proof.
  intros Hr H. unfold accrual. rewrite Zle_Qle in H.
  rewrite !inject_Z_minus.
  set (a := inject_Z n1) in *. set (b := inject_Z n2) in *.
  set (c := inject_Z (lastRefill this)). set (r := refillRate this) in *.
  q1000. nra.
Qed.

(** A bucket within its capacity never loses tokens to the passing of
    time: with a positive rate and a clock that does not go back, a
    later refill leaves at least what an earlier one leaves. *)
Theorem refillTokens_monotone_in_time
  (n1 n2 : Z) (this : RateLimiter.t)
  (Hrate : 0 < refillRate this)
  (Hcap : tokens this <= capacity this)
  (H1 : (lastRefill this <= n1)%Z)
  (H2 : (n1 <= n2)%Z) :
  tokens (refillTokens n1 this) <= tokens (refillTokens n2 this).
Proof.
  assert (M : accrual n1 this <= accrual n2 this)
    by (apply accrual_monotone; [lra | exact H2]).
  rewrite (refillTokens_unfold n1 this), (refillTokens_unfold n2 this).
  destruct (Qgtb (accrual n1 this) 0) eqn:E1;
    destruct (Qgtb (accrual n2 this) 0) eqn:E2; cbn [tokens].
  - apply Q.min_le_compat_l. lra.
  - apply Qgtb_true in E1. apply Qgtb_false in E2. lra.
  - apply Qgtb_true in E2. apply Q.min_glb; lra.
  - lra.
Qed.

Lemma refillTokens_monotone_in_time_witness :
  0 < refillRate (consume 100 (RateLimiter.constructor 0)) /\
  tokens (consume 100 (RateLimiter.constructor 0))
    <= capacity (consume 100 (RateLimiter.constructor 0)) /\
  (lastRefill (consume 100 (RateLimiter.constructor 0)) <= 300)%Z /\
  (300 <= 700)%Z /\
  tokens (refillTokens 300 (consume 100 (RateLimiter.constructor 0)))
    <= tokens (refillTokens 700 (consume 100 (RateLimiter.constructor 0))).
Proof.
  assert (H0 : 0 < refillRate (consume 100 (RateLimiter.constructor 0)))
    by reflexivity.
  assert (Hc : tokens (consume 100 (RateLimiter.constructor 0))
               <= capacity (consume 100 (RateLimiter.constructor 0)))
    by (apply Qle_bool_imp_le; reflexivity).
  assert (H1 : (lastRefill (consume 100 (RateLimiter.constructor 0)) <= 300)%Z)
    by (cbn; lia).
  assert (H2 : (300 <= 700)%Z) by lia.
  repeat (split; [assumption |]).
  apply (refillTokens_monotone_in_time
           300 700 (consume 100 (RateLimiter.constructor 0)) H0 Hc H1 H2).
Defined.

(** An idle limiter is full again after 10 s: whatever balance, not
    negative, the bucket of the constructor (capacity 100, 10 tokens per
    second) held, a refill 10000 ms or more after [lastRefill] leaves
    exactly [capacity] tokens; idle time beyond that is not credited. *)
Theorem refillTokens_full_after
  (now : Z) (this : RateLimiter.t)
  (Hconstructed : as_constructed this)
  (Htokens : 0 <= tokens this)
  (Hlong : (lastRefill this + 10000 <= now)%Z) :
  tokens (refillTokens now this) == capacity this
  /\ lastRefill (refillTokens now this) = now.
Proof.
  destruct Hconstructed as [Hc Hr].
  assert (A : 100 <= accrual now this).
  { unfold accrual. rewrite Hr.
    assert (D : inject_Z 10000 <= inject_Z (now - lastRefill this))
      by (rewrite <- Zle_Qle; lia).
    change (inject_Z 10000) with 10000 in D.
    set (d := inject_Z (now - lastRefill this)) in *. q1000. lra. }
  rewrite refillTokens_unfold.
  assert (P : Qgtb (accrual now this) 0 = true) by (apply Qgtb_true; lra).
  rewrite P. cbn [tokens lastRefill]. split; [| reflexivity].
  apply Q.min_l. rewrite Hc. lra.
Qed.

Lemma refillTokens_full_after_witness :
  as_constructed (consume (1 # 3) (RateLimiter.constructor 50)) /\
  0 <= tokens (consume (1 # 3) (RateLimiter.constructor 50)) /\
  (lastRefill (consume (1 # 3) (RateLimiter.constructor 50)) + 10000
   <= 10050)%Z /\
  tokens (refillTokens 10050 (consume (1 # 3) (RateLimiter.constructor 50)))
    == capacity (consume (1 # 3) (RateLimiter.constructor 50)).
Proof.
  assert (Ha : as_constructed (consume (1 # 3) (RateLimiter.constructor 50)))
    by (split; reflexivity).
  assert (Ht : 0 <= tokens (consume (1 # 3) (RateLimiter.constructor 50)))
    by (apply Qle_bool_imp_le; reflexivity).
  assert (Hl : (lastRefill (consume (1 # 3) (RateLimiter.constructor 50))
                + 10000 <= 10050)%Z) by (cbn; lia).
  repeat (split; [assumption |]).
  apply (proj1 (refillTokens_full_after
                  10050 (consume (1 # 3) (RateLimiter.constructor 50))
                  Ha Ht Hl)).
Defined.

(** A balance above the capacity (a negative weight leaves one) is
    forfeited as soon as time passes: the next refill with a positive
    accrual lowers it to exactly [capacity]. *)
Theorem refillTokens_clamps_excess
  (now : Z) (this : RateLimiter.t)
  (Hrate : 0 < refillRate this)
  (Hover : capacity this < tokens this)
  (Hlater : (lastRefill this < now)%Z) :
  tokens (refillTokens now this) == capacity this
  /\ tokens (refillTokens now this) < tokens this.
Proof.
  pose proof (proj2 (accrual_sign now this Hrate) Hlater) as A.
  rewrite refillTokens_unfold, (proj2 (Qgtb_true _ _) A). cbn [tokens].
  assert (M : Qmin (capacity this) (tokens this + accrual now this)
              == capacity this) by (apply Q.min_l; lra).
  split; [exact M | rewrite M; exact Hover].
Qed.

Lemma refillTokens_clamps_excess_witness :
  0 < refillRate (consume (-50) (RateLimiter.constructor 0)) /\
  capacity (consume (-50) (RateLimiter.constructor 0))
    < tokens (consume (-50) (RateLimiter.constructor 0)) /\
  (lastRefill (consume (-50) (RateLimiter.constructor 0)) < 1)%Z /\
  tokens (refillTokens 1 (consume (-50) (RateLimiter.constructor 0)))
    == capacity (consume (-50) (RateLimiter.constructor 0)).
Proof.
  assert (H0 : 0 < refillRate (consume (-50) (RateLimiter.constructor 0)))
    by reflexivity.
  assert (Ho : capacity (consume (-50) (RateLimiter.constructor 0))
               < tokens (consume (-50) (RateLimiter.constructor 0)))
    by reflexivity.
  assert (Hl : (lastRefill (consume (-50) (RateLimiter.constructor 0)) < 1)%Z)
    by (cbn; lia).
  repeat (split; [assumption |]).
  apply (refillTokens_clamps_excess
           1 (consume (-50) (RateLimiter.constructor 0)) H0 Ho Hl).
Defined.

(** ** The delay of the wait path *)

(** No timer is set with a negative delay, and none with a longer delay
    than an empty bucket gives for the same weight: on a bucket within
    its bounds, every delay given to [setTimeout] at any attempt of a
    call lies between 0 and [((weight - 0) / refillRate) * 1000], the
    delay the wait path computes when the bucket holds nothing. *)
Theorem waitForToken_delays_bounded
  (clock : list Z) (this : RateLimiter.t) (weight : Q)
  (Hrate : 0 < refillRate this)
  (Hbounds : within_bounds this) :
  Forall (fun ms => 0 <= ms /\ ms <= waitTimeMs (emptied this) weight)
         (timeouts (RateLimiter.waitForToken clock this (Some weight))).
Proof.
  revert this Hrate Hbounds.
  assert (D : forall this l : RateLimiter.t,
             refillRate l = refillRate this ->
             0 < refillRate this -> 0 <= tokens l ->
             tokens l < weight ->
             0 <= waitTimeMs l weight
             /\ waitTimeMs l weight <= waitTimeMs (emptied this) weight).
  { intros this l Hl Hr H0 Hs. unfold waitTimeMs, emptied.
    cbn [tokens refillRate]. rewrite Hl.
    set (r := refillRate this) in *. set (t := tokens l) in *.
    unfold Qdiv.
    assert (I : 0 < / r) by (apply Qinv_lt_0_compat; exact Hr).
    set (i := / r) in *. nra. }
  assert (E0 : forall now this weight',
             waitTimeMs (emptied (refillTokens now this)) weight'
             = waitTimeMs (emptied this) weight').
  { intros now this w'. unfold waitTimeMs, emptied. cbn [tokens refillRate].
    rewrite refillTokens_refillRate. reflexivity. }
  induction clock as [| now | now now' clock IH] using clock_ind2;
    intros this Hrate Hbounds.
  - constructor.
  - destruct (Qgeb (tokens (refillTokens now this)) weight) eqn:E.
    + rewrite waitForToken_consume by exact E. constructor.
    + rewrite waitForToken_suspend by exact E. cbn [timeouts default_arg].
      constructor; [| constructor].
      apply D.
      * apply refillTokens_refillRate.
      * exact Hrate.
      * apply (refillTokens_within_bounds now this Hbounds).
      * apply Qgeb_false, E.
  - destruct (Qgeb (tokens (refillTokens now this)) weight) eqn:E.
    + rewrite waitForToken_consume by exact E. constructor.
    + rewrite waitForToken_retry by exact E. cbn [timeouts default_arg].
      constructor.
      * apply D.
        -- apply refillTokens_refillRate.
        -- exact Hrate.
        -- apply (refillTokens_within_bounds now this Hbounds).
        -- apply Qgeb_false, E.
      * rewrite <- (E0 now this weight).
        rewrite <- (E0 now' (refillTokens now this) weight).
        apply IH.
        -- rewrite !refillTokens_refillRate. exact Hrate.
        -- apply refillTokens_within_bounds, refillTokens_within_bounds,
             Hbounds.
Qed.

Lemma waitForToken_delays_bounded_witness :
  0 < refillRate (consume 100 (RateLimiter.constructor 0)) /\
  within_bounds (consume 100 (RateLimiter.constructor 0)) /\
  Forall (fun ms =>
            0 <= ms
            /\ ms <= waitTimeMs
                       (emptied (consume 100 (RateLimiter.constructor 0))) 10)
         (timeouts (RateLimiter.waitForToken
                      [0; 400; 400; 1000; 1000]%Z
                      (consume 100 (RateLimiter.constructor 0)) (Some 10))).
Proof.
  assert (H0 : 0 < refillRate (consume 100 (RateLimiter.constructor 0)))
    by reflexivity.
  assert (Hb : within_bounds (consume 100 (RateLimiter.constructor 0)))
    by (split; apply Qle_bool_imp_le; reflexivity).
  repeat (split; [assumption |]).
  apply (waitForToken_delays_bounded
           [0; 400; 400; 1000; 1000]%Z
           (consume 100 (RateLimiter.constructor 0)) 10 H0 Hb).
Defined.

(** ** Weights above the capacity *)

(** On a bucket within its capacity, a call with a weight above the
    capacity never settles, whatever the clock shows: it consumes
    nothing, and it sets a new timer of at least
    [((weight - capacity) / refillRate) * 1000] ms at every second
    reading of the clock, without end. *)
Theorem waitForToken_over_capacity_never_settles
  (clock : list Z) (this : RateLimiter.t) (weight : Q)
  (Hrate : 0 < refillRate this)
  (Hcap : tokens this <= capacity this)
  (Hover : capacity this < weight) :
  promise (RateLimiter.waitForToken clock this (Some weight)) = None
  /\ List.length (timeouts (RateLimiter.waitForToken clock this (Some weight)))
     = Nat.div2 (S (List.length clock))
  /\ Forall (fun ms =>
               ((weight - capacity this) / refillRate this) * 1000 <= ms)
            (timeouts (RateLimiter.waitForToken clock this (Some weight)))
  /\ unread (RateLimiter.waitForToken clock this (Some weight)) = [].
Proof.
  split; [apply waitForToken_over_capacity_pending; assumption |].
  revert this Hrate Hcap Hover.
  assert (D : forall this : RateLimiter.t,
             0 < refillRate this -> tokens this <= capacity this ->
             ((weight - capacity this) / refillRate this) * 1000
             <= waitTimeMs this weight).
  { intros this Hr Hc. unfold waitTimeMs.
    set (r := refillRate this) in *. set (t := tokens this) in *.
    set (c := capacity this) in *. unfold Qdiv.
    assert (I : 0 < / r) by (apply Qinv_lt_0_compat; exact Hr).
    set (i := / r) in *. nra. }
  induction clock as [| now | now now' clock IH] using clock_ind2;
    intros this Hrate Hcap Hover.
  - repeat split. constructor.
  - pose proof (refillTokens_tokens_le_capacity now this Hcap) as H1.
    rewrite waitForToken_suspend
      by (apply Qgeb_false; cbn [default_arg]; lra).
    cbn [timeouts unread default_arg List.length Nat.div2].
    repeat split. constructor; [| constructor].
    rewrite <- (refillTokens_refillRate now this).
    rewrite <- (refillTokens_capacity now this).
    apply D; rewrite ?refillTokens_refillRate, ?refillTokens_capacity;
      assumption.
  - pose proof (refillTokens_tokens_le_capacity now this Hcap) as H1.
    rewrite waitForToken_retry
      by (apply Qgeb_false; cbn [default_arg]; lra).
    cbn [timeouts unread default_arg List.length Nat.div2].
    set (this2 := refillTokens now' (refillTokens now this)).
    assert (R2 : refillRate this2 = refillRate this)
      by (subst this2; rewrite !refillTokens_refillRate; reflexivity).
    assert (K2 : capacity this2 = capacity this)
      by (subst this2; rewrite !refillTokens_capacity; reflexivity).
    assert (C2 : tokens this2 <= capacity this2).
    { subst this2. rewrite refillTokens_capacity.
      apply refillTokens_tokens_le_capacity.
      rewrite refillTokens_capacity. exact H1. }
    destruct (IH this2) as (L & F & U);
      [rewrite R2; exact Hrate | exact C2 | rewrite K2; exact Hover |].
    rewrite R2, K2 in F.
    split; [f_equal; exact L |]. split; [| exact U].
    constructor; [| exact F].
    rewrite <- (refillTokens_refillRate now this).
    rewrite <- (refillTokens_capacity now this).
    apply D; rewrite ?refillTokens_refillRate, ?refillTokens_capacity;
      assumption.
Qed.

Lemma waitForToken_over_capacity_never_settles_witness :
  0 < refillRate (RateLimiter.constructor 0) /\
  tokens (RateLimiter.constructor 0) <= capacity (RateLimiter.constructor 0) /\
  capacity (RateLimiter.constructor 0) < 101 /\
  promise (RateLimiter.waitForToken
             [0; 100; 100; 200]%Z (RateLimiter.constructor 0) (Some 101))
    = None.
Proof.
  assert (H0 : 0 < refillRate (RateLimiter.constructor 0)) by reflexivity.
  assert (Hc : tokens (RateLimiter.constructor 0)
               <= capacity (RateLimiter.constructor 0))
    by (apply Qle_bool_imp_le; reflexivity).
  assert (Ho : capacity (RateLimiter.constructor 0) < 101) by reflexivity.
  repeat (split; [assumption |]).
  apply (waitForToken_over_capacity_never_settles
           [0; 100; 100; 200]%Z (RateLimiter.constructor 0) 101 H0 Hc Ho).
Defined.

(** ** What a sequence of calls can draw *)

(** [lastRefill] never goes back, even when the clock does: with a rate
    that is not negative, a refill moves it only to a later time, so
    after any sequence of calls it is at or after what it was. *)
Theorem lastRefill_never_goes_back
  (clock : list Z) (this : RateLimiter.t) (ws : list (option Q))
  (Hrate : 0 <= refillRate this) :
  (lastRefill this <= lastRefill (limiter (calls clock this ws)))%Z.
Proof.
  enough (H : refillRate (limiter (calls clock this ws)) = refillRate this
              /\ (lastRefill this
                  <= lastRefill (limiter (calls clock this ws)))%Z)
    by apply H.
  apply (calls_preserves
           (fun l => refillRate l = refillRate this
                     /\ (lastRefill this <= lastRefill l)%Z)
           (fun _ => True)).
  - intros now l [R L]. rewrite refillTokens_refillRate. split; [exact R |].
    rewrite refillTokens_unfold.
    destruct (Qgtb (accrual now l) 0) eqn:E; cbn [lastRefill]; [| exact L].
    apply Qgtb_true in E.
    destruct (Z_le_gt_dec now (lastRefill l)) as [Hb | Hf]; [| lia].
    exfalso. rewrite <- R in Hrate.
    pose proof (accrual_backward now l Hrate Hb). lra.
  - intros weight l _ H _. exact H.
  - apply Forall_forall. intros. exact Logic.I.
  - split; [reflexivity | lia].
Qed.

Lemma lastRefill_never_goes_back_witness :
  0 <= refillRate (RateLimiter.constructor 5000) /\
  (lastRefill (RateLimiter.constructor 5000)
   <= lastRefill (limiter (calls [6000; 4000; 3000]%Z
                                 (RateLimiter.constructor 5000)
                                 [Some 60%Q; Some 60%Q])))%Z.
Proof.
  assert (H0 : 0 <= refillRate (RateLimiter.constructor 5000))
    by (apply Qle_bool_imp_le; reflexivity).
  split; [exact H0 |].
  apply (lastRefill_never_goes_back
           [6000; 4000; 3000]%Z (RateLimiter.constructor 5000)
           [Some 60; Some 60] H0).
Defined.

Lemma total_weight_nonneg (ws : list (option Q)) :
  Forall positive_weight ws -> 0 <= total_weight ws.
Proof.
  induction 1 as [| w ws Hw _ IH]; cbn [total_weight fold_right]; [lra |].
  unfold positive_weight in Hw. fold (total_weight ws). lra.
Qed.

Lemma whole_weights_positive (ws : list (option Q)) :
  Forall whole_weight ws -> Forall positive_weight ws.
Proof.
  intros H. eapply Forall_impl; [| exact H]. intros w [Hw _]. exact Hw.
Qed.

(** The burst allowance: a sequence of calls with whole positive weights
    that add up to no more than the balance is served at once, call
    after call, whatever the clock shows; no timer is set and each call
    reads the clock once. *)
Theorem calls_burst_served_at_once
  (clock : list Z) (this : RateLimiter.t) (ws : list (option Q))
  (Hbounds : within_bounds this)
  (Hwhole : Forall whole_weight ws)
  (Hfit : total_weight ws <= tokens this)
  (Hclock : (List.length ws <= List.length clock)%nat) :
  promise (calls clock this ws) = Some (Fulfilled tt)
  /\ timeouts (calls clock this ws) = []
  /\ unread (calls clock this ws) = skipn (List.length ws) clock.
Proof.
  revert clock this Hbounds Hfit Hclock.
  induction Hwhole as [| w ws [Hw _] Hwhole IH];
    intros clock this Hbounds Hfit Hclock.
  - cbn. auto.
  - destruct clock as [| now clock]; [cbn in Hclock; lia |].
    pose proof (total_weight_nonneg ws (whole_weights_positive ws Hwhole))
      as N.
    change (total_weight (w :: ws))
      with (default_arg w 1 + total_weight ws) in Hfit.
    pose proof (refillTokens_within_bounds now this Hbounds) as B1.
    pose proof (refillTokens_tokens_ge now this (proj2 Hbounds)) as G.
    assert (E : Qgeb (tokens (refillTokens now this)) (default_arg w 1)
                = true) by (apply Qgeb_true; lra).
    cbn [calls waitForToken RateLimiter_IRateLimiter].
    rewrite (waitForToken_consume now clock this w E).
    cbn [promise limiter unread timeouts List.length skipn app].
    apply IH.
    + apply within_bounds_consume; [exact Hw | exact B1 |].
      apply Qgeb_true, E.
    + cbn [tokens consume]. lra.
    + cbn [List.length] in Hclock. lia.
Qed.

Lemma calls_burst_served_at_once_witness :
  within_bounds (RateLimiter.constructor 0) /\
  Forall whole_weight [Some 40; None; Some 59] /\
  total_weight [Some 40; None; Some 59] <= tokens (RateLimiter.constructor 0) /\
  (List.length [Some 40; None; Some 59] <= List.length [3; 1; 2; 7]%Z)%nat /\
  promise (calls [3; 1; 2; 7]%Z (RateLimiter.constructor 0)
                 [Some 40; None; Some 59]) = Some (Fulfilled tt).
Proof.
  assert (Hb : within_bounds (RateLimiter.constructor 0))
    by (split; apply Qle_bool_imp_le; reflexivity).
  assert (Hp : Forall whole_weight [Some 40; None; Some 59])
    by (repeat constructor).
  assert (Hf : total_weight [Some 40; None; Some 59]
               <= tokens (RateLimiter.constructor 0))
    by (apply Qle_bool_imp_le; reflexivity).
  assert (Hc : (List.length [Some 40; None; Some 59]
                <= List.length [3; 1; 2; 7]%Z)%nat) by (cbn; lia).
  repeat (split; [assumption |]).
  apply (calls_burst_served_at_once
           [3; 1; 2; 7]%Z (RateLimiter.constructor 0)
           [Some 40; None; Some 59] Hb Hp Hf Hc).
Defined.



(** ** The clock and the timers of one call *)

(** A call that is served after [k] suspensions has read the clock
    [2k + 1] times: once at each attempt, and once more on each waking,
    where the bucket is refilled before the next attempt refills it
    again. *)
Theorem waitForToken_clock_reads
  (clock : list Z) (this : RateLimiter.t) (w : option Q)
  (Hdone : promise (RateLimiter.waitForToken clock this w)
           = Some (Fulfilled tt)) :
  unread (RateLimiter.waitForToken clock this w)
  = skipn (S (2 * List.length
                     (timeouts (RateLimiter.waitForToken clock this w))))
          clock.
Proof.
  revert this w Hdone.
  induction clock as [| now | now now' clock IH] using clock_ind2;
    intros this w.
  - rewrite waitForToken_no_reading. discriminate.
  - destruct (Qgeb (tokens (refillTokens now this)) (default_arg w 1)) eqn:E.
    + rewrite waitForToken_consume by exact E. reflexivity.
    + rewrite waitForToken_suspend by exact E. discriminate.
  - destruct (Qgeb (tokens (refillTokens now this)) (default_arg w 1)) eqn:E.
    + rewrite waitForToken_consume by exact E. reflexivity.
    + rewrite waitForToken_retry by exact E. cbv zeta.
      cbn [promise unread timeouts List.length]. intros Hdone.
      rewrite (IH _ _ Hdone).
      replace (2 * S (List.length
                        (timeouts
                           (RateLimiter.waitForToken
                              clock
                              (refillTokens now' (refillTokens now this))
                              (Some (default_arg w 1))))))%nat
        with (S (S (2 * List.length
                          (timeouts
                             (RateLimiter.waitForToken
                                clock
                                (refillTokens now' (refillTokens now this))
                                (Some (default_arg w 1)))))))%nat by lia.
      reflexivity.
Qed.

Lemma waitForToken_clock_reads_witness :
  promise (RateLimiter.waitForToken
             [0; 400; 400; 1000; 1000; 1200]%Z
             (consume 100 (RateLimiter.constructor 0)) (Some 10))
    = Some (Fulfilled tt) /\
  unread (RateLimiter.waitForToken
            [0; 400; 400; 1000; 1000; 1200]%Z
            (consume 100 (RateLimiter.constructor 0)) (Some 10))
    = skipn (S (2 * List.length
                       (timeouts
                          (RateLimiter.waitForToken
                             [0; 400; 400; 1000; 1000; 1200]%Z
                             (consume 100 (RateLimiter.constructor 0))
                             (Some 10)))))
            [0; 400; 400; 1000; 1000; 1200]%Z.
Proof.
  assert (Hd : promise (RateLimiter.waitForToken
                          [0; 400; 400; 1000; 1000; 1200]%Z
                          (consume 100 (RateLimiter.constructor 0)) (Some 10))
               = Some (Fulfilled tt)) by reflexivity.
  split; [exact Hd |].
  apply (waitForToken_clock_reads
           [0; 400; 400; 1000; 1000; 1200]%Z
           (consume 100 (RateLimiter.constructor 0)) (Some 10) Hd).
Defined.

Lemma refillTokens_shift (d now : Z) (this : RateLimiter.t) :
  refillTokens (now + d) (shift d this) = shift d (refillTokens now this).
Proof.
  unfold refillTokens, shift. cbn [tokens lastRefill capacity refillRate].
  replace (now + d - (lastRefill this + d))%Z with (now - lastRefill this)%Z
    by lia.
  destruct (Qgtb _ _); reflexivity.
Qed.

(** Only differences of time matter: on a clock set [d] ms ahead, with
    [lastRefill] set ahead as much, a call takes the same decisions,
    sets the same timers and leaves the same balance. *)
Theorem waitForToken_shift_invariant
  (d : Z) (clock : list Z) (this : RateLimiter.t) (w : option Q) :
  RateLimiter.waitForToken (map (fun n => (n + d)%Z) clock) (shift d this) w
  = shift_run d (RateLimiter.waitForToken clock this w).
Proof.
  revert this w.
  induction clock as [| now | now now' clock IH] using clock_ind2;
    intros this w.
  - rewrite !waitForToken_no_reading. reflexivity.
  - cbn [map].
    destruct (Qgeb (tokens (refillTokens now this)) (default_arg w 1)) eqn:E.
    + rewrite waitForToken_consume by (rewrite refillTokens_shift; exact E).
      rewrite waitForToken_consume by exact E.
      rewrite refillTokens_shift. reflexivity.
    + rewrite waitForToken_suspend by (rewrite refillTokens_shift; exact E).
      rewrite waitForToken_suspend by exact E.
      rewrite refillTokens_shift. reflexivity.
  - cbn [map].
    destruct (Qgeb (tokens (refillTokens now this)) (default_arg w 1)) eqn:E.
    + rewrite waitForToken_consume by (rewrite refillTokens_shift; exact E).
      rewrite waitForToken_consume by exact E.
      rewrite refillTokens_shift. reflexivity.
    + rewrite waitForToken_retry by (rewrite refillTokens_shift; exact E).
      rewrite waitForToken_retry by exact E. cbv zeta.
      rewrite !refillTokens_shift, IH. reflexivity.
Qed.

(** ** What a call takes from the bucket *)



(** The weight is taken whole or not at all: while the promise of a call
    on a bucket within its capacity is pending, nothing has been taken
    from the bucket, which holds at least what it held before the
    call. *)
Theorem waitForToken_pending_takes_nothing
  (clock : list Z) (this : RateLimiter.t) (w : option Q)
  (Hcap : tokens this <= capacity this)
  (Hpending : promise (RateLimiter.waitForToken clock this w) = None) :
  tokens this <= tokens (limiter (RateLimiter.waitForToken clock this w))
  /\ tokens (limiter (RateLimiter.waitForToken clock this w))
     <= capacity this.
Proof.
  revert this w Hcap Hpending.
  induction clock as [| now | now now' clock IH] using clock_ind2;
    intros this w Hcap.
  - rewrite waitForToken_no_reading. cbn [limiter]. intros _. split; lra.
  - pose proof (refillTokens_tokens_ge now this Hcap) as G.
    pose proof (refillTokens_tokens_le_capacity now this Hcap) as L.
    destruct (Qgeb (tokens (refillTokens now this)) (default_arg w 1)) eqn:E.
    + rewrite waitForToken_consume by exact E. discriminate.
    + rewrite waitForToken_suspend by exact E. cbn [limiter]. intros _.
      split; assumption.
  - pose proof (refillTokens_tokens_ge now this Hcap) as G.
    pose proof (refillTokens_tokens_le_capacity now this Hcap) as L.
    destruct (Qgeb (tokens (refillTokens now this)) (default_arg w 1)) eqn:E.
    + rewrite waitForToken_consume by exact E. discriminate.
    + rewrite waitForToken_retry by exact E. cbv zeta.
      cbn [promise limiter]. intros Hpending.
      set (this1 := refillTokens now this) in *.
      assert (C1 : tokens this1 <= capacity this1)
        by (subst this1; rewrite refillTokens_capacity; exact L).
      pose proof (refillTokens_tokens_ge now' this1 C1) as G2.
      pose proof (refillTokens_tokens_le_capacity now' this1 C1) as L2.
      set (this2 := refillTokens now' this1) in *.
      assert (K : capacity this2 = capacity this)
        by (subst this2 this1; rewrite !refillTokens_capacity; reflexivity).
      assert (K1 : capacity this1 = capacity this)
        by (subst this1; apply refillTokens_capacity).
      assert (C2 : tokens this2 <= capacity this2) by (rewrite K, <- K1; exact L2).
      destruct (IH this2 _ C2 Hpending) as [I1 I2].
      rewrite K in I2. split; lra.
Qed.

Lemma waitForToken_pending_takes_nothing_witness :
  tokens (consume 95 (RateLimiter.constructor 0))
    <= capacity (consume 95 (RateLimiter.constructor 0)) /\
  promise (RateLimiter.waitForToken
             [0; 300; 300; 700]%Z (consume 95 (RateLimiter.constructor 0))
             (Some 20)) = None /\
  tokens (consume 95 (RateLimiter.constructor 0))
    <= tokens (limiter (RateLimiter.waitForToken
                          [0; 300; 300; 700]%Z
                          (consume 95 (RateLimiter.constructor 0))
                          (Some 20))).
Proof.
  assert (Hc : tokens (consume 95 (RateLimiter.constructor 0))
               <= capacity (consume 95 (RateLimiter.constructor 0)))
    by (apply Qle_bool_imp_le; reflexivity).
  assert (Hp : promise (RateLimiter.waitForToken
                          [0; 300; 300; 700]%Z
                          (consume 95 (RateLimiter.constructor 0)) (Some 20))
               = None) by reflexivity.
  repeat (split; [assumption |]).
  apply (waitForToken_pending_takes_nothing
           [0; 300; 300; 700]%Z (consume 95 (RateLimiter.constructor 0))
           (Some 20) Hc Hp).
Defined.

(** ** [lastRefill] and the clock *)

Lemma refillTokens_lastRefill_cases (now : Z) (this : RateLimiter.t) :
  lastRefill (refillTokens now this) = now
  \/ lastRefill (refillTokens now this) = lastRefill this.
Proof.
  rewrite refillTokens_unfold. destruct (Qgtb _ _); cbn; auto.
Qed.

Lemma waitForToken_lastRefill_reading (clock : list Z) :
  forall (this : RateLimiter.t) (w : option Q),
    In (lastRefill (limiter (RateLimiter.waitForToken clock this w)))
       (lastRefill this :: clock)
    /\ incl (unread (RateLimiter.waitForToken clock this w)) clock.
Proof.
  induction clock as [| now | now now' clock IH] using clock_ind2;
    intros this w.
  - rewrite waitForToken_no_reading. cbn. split; [auto | apply incl_refl].
  - pose proof (refillTokens_lastRefill_cases now this) as [L | L].
    all: destruct (Qgeb (tokens (refillTokens now this)) (default_arg w 1))
           eqn:E;
      [rewrite waitForToken_consume by exact E
      | rewrite waitForToken_suspend by exact E];
      cbn [limiter unread lastRefill consume]; rewrite L;
      (split; [cbn; auto | apply incl_nil_l]).
  - pose proof (refillTokens_lastRefill_cases now this) as L.
    destruct (Qgeb (tokens (refillTokens now this)) (default_arg w 1)) eqn:E.
    + rewrite waitForToken_consume by exact E.
      cbn [limiter unread lastRefill consume]. split.
      * destruct L as [-> | ->]; cbn; auto.
      * apply incl_tl, incl_refl.
    + rewrite waitForToken_retry by exact E. cbv zeta.
      cbn [limiter unread].
      pose proof (refillTokens_lastRefill_cases now' (refillTokens now this))
        as L'.
      destruct (IH (refillTokens now' (refillTokens now this))
                   (Some (default_arg w 1))) as [I U].
      split.
      * destruct I as [I | I].
        -- rewrite <- I.
           destruct L' as [-> | ->]; [cbn; auto |].
           destruct L as [-> | ->]; cbn; auto.
        -- right. right. right. exact I.
      * apply incl_tl, incl_tl, U.
Qed.

(** [lastRefill] only ever holds the time of construction or a value
    that [Date.now()] has returned: after any sequence of calls it is
    the [lastRefill] of the start or one of the readings of the
    clock. *)
Theorem lastRefill_is_a_reading
  (clock : list Z) (this : RateLimiter.t) (ws : list (option Q)) :
  In (lastRefill (limiter (calls clock this ws))) (lastRefill this :: clock).
Proof.
  revert clock this.
  induction ws as [| w ws IH]; intros clock this; [cbn; auto |].
  destruct (waitForToken_lastRefill_reading clock this w) as [I U].
  cbn [calls waitForToken RateLimiter_IRateLimiter].
  destruct (promise (RateLimiter.waitForToken clock this w))
    as [[u | e] |]; cbn [limiter]; try exact I.
  destruct (IH (unread (RateLimiter.waitForToken clock this w))
               (limiter (RateLimiter.waitForToken clock this w)))
    as [H | H].
  - rewrite <- H. exact I.
  - right. apply U, H.
Qed.
